(** * bundle: the compression front end of [redist/bundle.hpp]

    A shallow embedding of the header: the identifier enums, the
    buffer-owning [pack]/[unpack] templates, the [measures] benchmark loop
    and the three [find_*] selection loops, followed by the properties
    established about them.

    Conventions of the embedding.
    - [unsigned] identifiers are [N]; [size_t] lengths are [nat].
    - [std::string] and the byte containers of the templates are
      [list byte].
    - [double] is the type [Dbl.double]: exact rationals extended with the
      two infinities and NaN.  Division by zero and NaN comparisons follow
      IEEE 754; rounding, overflow and the sign of zero are not modelled.
      Where rounding decides, line 107 is also given over the binary64
      numbers of the kernel ([ratio_binary64]).
    - [std::chrono::high_resolution_clock::now()] is an oracle [now]: its
      k-th reading since some origin is [now k], and the number of readings
      made so far is threaded through the loop.
    - [z], [unz], [bound] and the pointer-level [pack]/[unpack] are declared
      by the header and defined elsewhere; they are parameters. *)

From Stdlib Require Import List ZArith NArith QArith Bool Lia Lqa.
From Stdlib Require Import Strings.Byte.
From Stdlib Require Floats.PrimFloat Floats.SpecFloat Floats.FloatOps Uint63.
Import ListNotations.

Set Implicit Arguments.

(** ** Identifiers (lines 14-22) *)

Definition unsigned := N.

(* per lib *)
Definition UNDEFINED : unsigned := 0%N.
Definition SHOCO : unsigned := 1%N.
Definition LZ4 : unsigned := 2%N.
Definition MINIZ : unsigned := 3%N.
Definition LZLIB : unsigned := 4%N.
(* per family *)
Definition NONE : unsigned := UNDEFINED.
Definition ENTROPY : unsigned := SHOCO.
Definition LZ77 : unsigned := LZ4.
Definition DEFLATE : unsigned := MINIZ.
Definition LZMA : unsigned := LZLIB.
(* per context *)
Definition UNCOMPRESSED : unsigned := NONE.
Definition ASCII : unsigned := ENTROPY.
Definition FAST : unsigned := LZ77.
Definition DEFAULT : unsigned := DEFLATE.
Definition EXTRA : unsigned := LZMA.

(* dont compress if compression ratio is below 5% *)
Definition NO_COMPRESSION_TRESHOLD : Z := 5.

Definition bytes := list byte.

Definition bytes_eqb (a b : bytes) : bool :=
  if list_eq_dec Byte.byte_eq_dec a b then true else false.

(** ** The model of [double] *)

Module Dbl.

Inductive double : Type :=
| Fin (v : Q)
| PosInf
| NegInf
| NaN.

Definition sign (v : Q) : comparison := v ?= 0.

Definition of_Z (n : Z) : double := Fin (inject_Z n).
Definition of_size (n : nat) : double := of_Z (Z.of_nat n).

Definition inf_of (s : comparison) : double :=
  match s with Lt => NegInf | Gt => PosInf | Eq => NaN end.

Definition sign_of (x : double) : comparison :=
  match x with Fin v => sign v | PosInf => Gt | NegInf => Lt | NaN => Eq end.

Definition sign_mul (a b : comparison) : comparison :=
  match a, b with
  | Eq, _ | _, Eq => Eq
  | Lt, Lt | Gt, Gt => Gt
  | _, _ => Lt
  end.

Definition neg (x : double) : double :=
  match x with
  | Fin v => Fin (- v)
  | PosInf => NegInf
  | NegInf => PosInf
  | NaN => NaN
  end.

Definition add (x y : double) : double :=
  match x, y with
  | NaN, _ | _, NaN => NaN
  | Fin a, Fin b => Fin (a + b)
  | PosInf, NegInf | NegInf, PosInf => NaN
  | PosInf, _ | _, PosInf => PosInf
  | NegInf, _ | _, NegInf => NegInf
  end.

Definition sub (x y : double) : double := add x (neg y).

Definition mul (x y : double) : double :=
  match x, y with
  | NaN, _ | _, NaN => NaN
  | Fin a, Fin b => Fin (a * b)
  | _, _ => inf_of (sign_mul (sign_of x) (sign_of y))
  end.

(* a zero divisor is +0: every divisor of the header is a [size_t] or a
   positive literal *)
Definition div (x y : double) : double :=
  match x, y with
  | NaN, _ | _, NaN => NaN
  | Fin a, Fin b =>
      match sign b with
      | Eq => inf_of (sign a)
      | _ => Fin (a / b)
      end
  | Fin _, _ => Fin 0
  | _, Fin b =>
      inf_of (sign_mul (sign_of x) (match sign b with Eq => Gt | s => s end))
  | _, _ => NaN
  end.

Definition Qltb (a b : Q) : bool := negb (Qle_bool b a).

(* every comparison with NaN is false *)
Definition ltb (x y : double) : bool :=
  match x, y with
  | NaN, _ | _, NaN => false
  | Fin a, Fin b => Qltb a b
  | _, NegInf => false
  | NegInf, _ => true
  | PosInf, _ => false
  | _, PosInf => true
  end.

Definition leb (x y : double) : bool :=
  match x, y with
  | NaN, _ | _, NaN => false
  | Fin a, Fin b => Qle_bool a b
  | NegInf, _ => true
  | _, NegInf => false
  | _, PosInf => true
  | PosInf, _ => false
  end.

(* operator== *)
Definition eqb (x y : double) : bool :=
  match x, y with
  | Fin a, Fin b => Qeq_bool a b
  | PosInf, PosInf | NegInf, NegInf => true
  | _, _ => false
  end.

Definition gtb (x y : double) : bool := ltb y x.
Definition geb (x y : double) : bool := leb y x.

Definition is_finite (x : double) : Prop := exists v, x = Fin v.

End Dbl.

(** ** struct measure (lines 78-90) *)

Record measure : Type := mk_measure {
  q : unsigned;
  ratio : Dbl.double;
  enctime : Dbl.double;
  dectime : Dbl.double;
  memusage : Dbl.double;
  pass : bool
}.

(* measure(): the default member initializers *)
Definition measure_default : measure :=
  mk_measure NONE (Dbl.of_Z 0) (Dbl.of_Z 0) (Dbl.of_Z 0) (Dbl.of_Z 0) false.

Definition set_q (v : unsigned) (r : measure) : measure :=
  mk_measure v (ratio r) (enctime r) (dectime r) (memusage r) (pass r).
Definition set_ratio (v : Dbl.double) (r : measure) : measure :=
  mk_measure (q r) v (enctime r) (dectime r) (memusage r) (pass r).
Definition set_enctime (v : Dbl.double) (r : measure) : measure :=
  mk_measure (q r) (ratio r) v (dectime r) (memusage r) (pass r).
Definition set_dectime (v : Dbl.double) (r : measure) : measure :=
  mk_measure (q r) (ratio r) (enctime r) v (memusage r) (pass r).
Definition set_pass (v : bool) (r : measure) : measure :=
  mk_measure (q r) (ratio r) (enctime r) (dectime r) (memusage r) v.

(* static std::vector<unsigned> all { LZ4, SHOCO, MINIZ, LZLIB, NONE } *)
Definition encodings : list unsigned := [LZ4; SHOCO; MINIZ; LZLIB; NONE].

(** ** measures (lines 92-122) *)

(** The calls made to the string codecs, in the order they are made. *)
Inductive call : Type :=
| CallZ (input : bytes) (scheme : unsigned)
| CallUnz (input : bytes) (scheme : unsigned).

(** The locals of [measures] that live across iterations, the number of
    clock readings taken so far and the log of codec calls. *)
Record frame : Type := mk_frame {
  results : list measure;
  zipped : bytes;
  unzipped : bytes;
  tick : nat;
  calls : list call
}.

Section Benchmark.

(* the clock, and the [duration_cast<milliseconds>(..).count()] of the
   difference of two readings *)
Variable now : nat -> Z.
Variable duration_cast_ms : Z -> Z.
(* std::string z( const std::string &self, unsigned q ), and unz *)
Variable z : bytes -> unsigned -> bytes.
Variable unz : bytes -> unsigned -> bytes.

Section Flags.

(* template< class T, bool do_enc, bool do_dec, bool do_verify > *)
Variables do_enc do_dec do_verify : bool.
Variable original : bytes.

(* r.ratio = 100 - 100 * ( double( zipped.size() ) / original.size() ) *)
Definition ratio_of (zsize osize : nat) : Dbl.double :=
  Dbl.sub (Dbl.of_Z 100)
    (Dbl.mul (Dbl.of_Z 100) (Dbl.div (Dbl.of_size zsize) (Dbl.of_size osize))).

(* the [if( do_enc )] block, on the record under construction *)
Definition enc_phase (scheme : unsigned) (st : frame) (r : measure) : frame * measure :=
  if do_enc then
    let begin_ := now (tick st) in
    let zipped' := z original scheme in
    let end_ := now (S (tick st)) in
    let r := set_enctime (Dbl.of_Z (duration_cast_ms (end_ - begin_))) r in
    let r := set_ratio (ratio_of (length zipped') (length original)) r in
    (mk_frame (results st) zipped' (unzipped st) (S (S (tick st)))
       (calls st ++ [CallZ original scheme]), r)
  else (st, r).

(* the [if( do_dec )] block *)
Definition dec_phase (scheme : unsigned) (st : frame) (r : measure) : frame * measure :=
  if do_dec then
    let begin_ := now (tick st) in
    let unzipped' := unz (zipped st) scheme in
    let end_ := now (S (tick st)) in
    let r := set_dectime (Dbl.of_Z (duration_cast_ms (end_ - begin_))) r in
    let r := set_pass (bytes_eqb original unzipped') r in
    (mk_frame (results st) (zipped st) unzipped' (S (S (tick st)))
       (calls st ++ [CallUnz (zipped st) scheme]), r)
  else (st, r).

(* one iteration of [for( auto scheme : encodings )]; the record is pushed
   first and filled through the reference [r], so the frame receives the
   finished record *)
Definition measures_body (st : frame) (scheme : unsigned) : frame :=
  let r := set_q scheme measure_default in
  let '(st, r) := enc_phase scheme st r in
  let '(st, r) := dec_phase scheme st r in
  let r :=
    set_pass (if do_verify && do_enc && do_dec
              then bytes_eqb original (unzipped st) else true) r in
  mk_frame (results st ++ [r]) (zipped st) (unzipped st) (tick st) (calls st).

Definition measures_from (st : frame) (encs : list unsigned) : frame :=
  fold_left measures_body encs st.

(* [t0] clock readings were taken before the call *)
Definition measures_run (encs : list unsigned) (t0 : nat) : frame :=
  measures_from (mk_frame [] [] [] t0 []) encs.

Definition measures (encs : list unsigned) (t0 : nat) : list measure :=
  results (measures_run encs t0).

End Flags.

(** ** The selection loops (lines 124-171)

    The header writes [measures< true, false, false >( original, encodings )]:
    the three explicit arguments are read as [do_enc], [do_dec] and
    [do_verify], [T] being deduced from [original]. *)

(* 100 - NO_COMPRESSION_TRESHOLD / 100.0 *)
Definition smallest_bar : Dbl.double :=
  Dbl.sub (Dbl.of_Z 100) (Dbl.div (Dbl.of_Z NO_COMPRESSION_TRESHOLD) (Dbl.of_Z 100)).

Definition smallest_pred (best : Dbl.double) (r : measure) : bool :=
  pass r && Dbl.gtb (ratio r) best && Dbl.geb (ratio r) smallest_bar.

Definition smallest_step (st : unsigned * Dbl.double) (r : measure) : unsigned * Dbl.double :=
  if smallest_pred (snd st) r then (q r, ratio r) else st.

Definition find_smallest_compressor (original : bytes) (encs : list unsigned) (t0 : nat) : unsigned :=
  let results := measures true false false original encs t0 in
  fst (fold_left smallest_step results (NONE, Dbl.of_Z 0)).

Definition fastest_enc_pred (best : Dbl.double) (r : measure) : bool :=
  pass r && Dbl.ltb (enctime r) best.

Definition fastest_enc_step (st : unsigned * Dbl.double) (r : measure) : unsigned * Dbl.double :=
  if fastest_enc_pred (snd st) r then (q r, enctime r) else st.

Definition find_fastest_compressor (original : bytes) (encs : list unsigned) (t0 : nat) : unsigned :=
  let results := measures true false false original encs t0 in
  fst (fold_left fastest_enc_step results (NONE, Dbl.of_Z 9999999)).

Definition fastest_dec_pred (best : Dbl.double) (r : measure) : bool :=
  pass r && Dbl.ltb (dectime r) best.

Definition fastest_dec_step (st : unsigned * Dbl.double) (r : measure) : unsigned * Dbl.double :=
  if fastest_dec_pred (snd st) r then (q r, dectime r) else st.

Definition find_fastest_decompressor (original : bytes) (encs : list unsigned) (t0 : nat) : unsigned :=
  let results := measures false true false original encs t0 in
  fst (fold_left fastest_dec_step results (NONE, Dbl.of_Z 9999999)).

End Benchmark.

(** ** The buffer-owning templates (lines 44-70) *)

Inductive exn : Type := out_of_range.

Inductive outcome (A : Type) : Type :=
| Returned (a : A)
| Thrown (e : exn).

Arguments Returned {A} a.
Arguments Thrown {A} e.

(* container.resize( n ): truncate, or append value-initialised bytes *)
Definition resize (n : nat) (buf : bytes) : bytes :=
  firstn n buf ++ repeat "000"%byte (n - length buf).

(* what a buffer holds after [written] was stored at its start through a
   [char *]: its size is unchanged *)
Definition store (written buf : bytes) : bytes :=
  firstn (length buf) (written ++ skipn (length written) buf).

Section Templates.

(* size_t bound( unsigned q, size_t len ) *)
Variable bound : unsigned -> nat -> nat.
(* bool pack( unsigned q, const char *in, size_t len, char *out, size_t &zlen ):
   from [q], the bytes at [in] and the buffer at [out], whose size is the
   incoming [zlen], to the result, the bytes stored at [out] and the
   outgoing [zlen]; unpack has the same shape *)
Variable pack_ptr : unsigned -> bytes -> bytes -> bool * bytes * nat.
Variable unpack_ptr : unsigned -> bytes -> bytes -> bool * bytes * nat.

(* [container.at(0)] throws std::out_of_range on an empty container *)
Definition at0 (buf : bytes) : outcome byte :=
  match buf with
  | [] => Thrown out_of_range
  | b :: _ => Returned b
  end.

(* the outcome, and [buffer_out] as the call leaves it *)
Definition pack (buffer_out buffer_in : bytes) (q : unsigned) : outcome bool * bytes :=
  (* resize to worst case *)
  let zlen := bound q (length buffer_in) in
  let buffer_out := resize zlen buffer_out in
  (* compress *)
  match at0 buffer_in, at0 buffer_out with
  | Thrown e, _ | _, Thrown e => (Thrown e, buffer_out)
  | Returned _, Returned _ =>
      let '(result, written, zlen) := pack_ptr q buffer_in buffer_out in
      let buffer_out := store written buffer_out in
      (* resize properly *)
      if result then (Returned true, resize zlen buffer_out)
      else (Returned false, [])
  end.

Definition unpack (buffer_out buffer_in : bytes) (q : unsigned) : outcome bool * bytes :=
  (* note: buffer_out must be resized properly before calling this function!! *)
  match at0 buffer_in, at0 buffer_out with
  | Thrown e, _ | _, Thrown e => (Thrown e, buffer_out)
  | Returned _, Returned _ =>
      let '(result, written, _) := unpack_ptr q buffer_in buffer_out in
      (Returned result, store written buffer_out)
  end.

End Templates.

(** ** Closed form of the benchmark loop *)

Section ClosedForm.

Variable now : nat -> Z.
Variable duration_cast_ms : Z -> Z.
Variable z : bytes -> unsigned -> bytes.
Variable unz : bytes -> unsigned -> bytes.
Variables do_enc do_dec do_verify : bool.
Variable original : bytes.

(* clock readings per candidate *)
Definition reads : nat := (if do_enc then 2 else 0) + (if do_dec then 2 else 0).

(* what [zipped] holds when the decode phase starts *)
Definition zipped_at_decode (scheme : unsigned) (zin : bytes) : bytes :=
  if do_enc then z original scheme else zin.

(* the record of a candidate processed when [zipped] holds [zin] and the
   clock was read [t] times *)
Definition record_of (zin : bytes) (t : nat) (scheme : unsigned) : measure :=
  let tdec := ((if do_enc then 2 else 0) + t)%nat in
  mk_measure scheme
    (if do_enc then ratio_of (length (z original scheme)) (length original)
     else Dbl.of_Z 0)
    (if do_enc then Dbl.of_Z (duration_cast_ms (now (S t) - now t))
     else Dbl.of_Z 0)
    (if do_dec then Dbl.of_Z (duration_cast_ms (now (S tdec) - now tdec))
     else Dbl.of_Z 0)
    (Dbl.of_Z 0)
    (if do_verify && do_enc && do_dec
     then bytes_eqb original (unz (zipped_at_decode scheme zin) scheme)
     else true).

Definition calls_of (zin : bytes) (scheme : unsigned) : list call :=
  (if do_enc then [CallZ original scheme] else []) ++
  (if do_dec then [CallUnz (zipped_at_decode scheme zin) scheme] else []).

Fixpoint records_from (zin : bytes) (t : nat) (encs : list unsigned) : list measure :=
  match encs with
  | [] => []
  | scheme :: rest => record_of zin t scheme :: records_from zin (reads + t) rest
  end.

End ClosedForm.

(** ** Vocabulary of the properties *)

(** The shape shared by the three selection loops: a record that satisfies
    the loop's test against the best key so far replaces the choice. *)
Definition select_step (test : Dbl.double -> measure -> bool) (key : measure -> Dbl.double)
    (st : unsigned * Dbl.double) (r : measure) : unsigned * Dbl.double :=
  if test (snd st) r then (q r, key r) else st.

Definition lower_test (key : measure -> Dbl.double) (best : Dbl.double) (r : measure) : bool :=
  pass r && Dbl.ltb (key r) best.

(** [r], the [i]-th record of [rs], passes, no passing record has a lower
    key and every earlier passing record has a higher one. *)
Definition first_lowest (key : measure -> Dbl.double)
    (rs : list measure) (i : nat) (r : measure) : Prop :=
  nth_error rs i = Some r /\ pass r = true /\
  (forall j r', nth_error rs j = Some r' -> pass r' = true ->
                Dbl.leb (key r) (key r') = true) /\
  (forall j r', (j < i)%nat -> nth_error rs j = Some r' -> pass r' = true ->
                Dbl.ltb (key r) (key r') = true).

(** The passing record of lowest encode time, the first of them in case of
    a tie. *)
Definition first_fastest : list measure -> nat -> measure -> Prop :=
  first_lowest enctime.

(** Every decode call of a log comes right after the encode call of the
    same scheme on [original], and was given what that call returned. *)
Definition decode_follows_encode (z : bytes -> unsigned -> bytes) (original : bytes)
    (log : list call) : Prop :=
  forall before after input scheme,
    log = before ++ CallUnz input scheme :: after ->
    input = z original scheme /\
    exists before', before = before' ++ [CallZ original scheme].

Definition call_scheme (c : call) : unsigned :=
  match c with CallZ _ s | CallUnz _ s => s end.

(** ** Scenarios *)

(* a clock that advances one tick per reading, ticks being milliseconds *)
Definition steady_clock (k : nat) : Z := Z.of_nat k.
Definition whole_ms (d : Z) : Z := d.
(* a clock on which every timed call lasts 9999999 ms *)
Definition slow_clock (k : nat) : Z := Z.of_nat k * 9999999.

(* a codec that stores its input as it is *)
Definition z_copy (self : bytes) (_ : unsigned) : bytes := self.
Definition unz_copy (self : bytes) (_ : unsigned) : bytes := self.

(* a codec that halves the payload under LZ4 and saves a tenth otherwise *)
Definition z_half_lz4 (self : bytes) (id : unsigned) : bytes :=
  if (id =? LZ4)%N then firstn (length self / 2) self
  else firstn (length self * 9 / 10) self.

(* a codec that saves 3 percent under every identifier *)
Definition z_three_percent (self : bytes) (_ : unsigned) : bytes :=
  firstn (length self * 97 / 100) self.

(* a decoder that loses the payload under one identifier *)
Definition unz_faulty (bad : unsigned) (self : bytes) (id : unsigned) : bytes :=
  if (id =? bad)%N then [] else self.

Definition payload100 : bytes := repeat "a"%byte 100.
Definition payload3 : bytes := ["a"; "b"; "c"]%byte.

(* a worst-case bound and a pointer-level pack that copies *)
Definition bound_plus16 (_ : unsigned) (len : nat) : nat := len + 16.
Definition pack_ptr_copy (_ : unsigned) (input out : bytes) : bool * bytes * nat :=
  if (length input <=? length out)%nat then (true, input, length input)
  else (false, [], length out).

(** The test of a loop that looks for the highest key at or above a bar. *)
Definition bar_test (key : measure -> Dbl.double) (bar best : Dbl.double)
    (r : measure) : bool :=
  pass r && Dbl.gtb (key r) best && Dbl.geb (key r) bar.

(** [r], the [i]-th record of [rs], passes, no passing record has a higher
    key and every earlier passing record has a lower one. *)
Definition first_highest (key : measure -> Dbl.double)
    (rs : list measure) (i : nat) (r : measure) : Prop :=
  nth_error rs i = Some r /\ pass r = true /\
  (forall j r', nth_error rs j = Some r' -> pass r' = true ->
                Dbl.leb (key r') (key r) = true) /\
  (forall j r', (j < i)%nat -> nth_error rs j = Some r' -> pass r' = true ->
                Dbl.ltb (key r') (key r) = true).

(* a clock that runs three times faster than [steady_clock] *)
Definition brisk_clock (k : nat) : Z := Z.of_nat k * 3.

(* a codec that keeps one byte in four thousand under LZ4, one in two
   thousand under LZLIB, and nine in ten otherwise *)
Definition z_tiny (self : bytes) (id : unsigned) : bytes :=
  if (id =? LZ4)%N then firstn (length self / 4000) self
  else if (id =? LZLIB)%N then firstn (length self / 2000) self
  else firstn (length self * 9 / 10) self.

Definition payload4000 : bytes := repeat "a"%byte 4000.

(** ** Line 107 in binary64 *)

(* an integer below 2^63 as the double it converts to *)
Definition double_of_Z (n : Z) : PrimFloat.float :=
  PrimFloat.of_uint63 (Uint63.of_Z n).

(* r.ratio = 100 - 100 * ( double( zipped.size() ) / original.size() ), each
   operation rounded to the nearest binary64 number as the program does *)
Definition ratio_binary64 (zsize osize : Z) : PrimFloat.float :=
  PrimFloat.sub (double_of_Z 100)
    (PrimFloat.mul (double_of_Z 100)
       (PrimFloat.div (double_of_Z zsize) (double_of_Z osize))).

(** * Properties *)

(** ** Comparisons of finite doubles *)

Lemma Qltb_lt (a b : Q) : Dbl.Qltb a b = true <-> a < b.
Proof.
  unfold Dbl.Qltb. rewrite negb_true_iff, <- not_true_iff_false, Qle_bool_iff.
  split; [apply Qnot_le_lt | apply Qlt_not_le].
Qed.

Lemma Qltb_ge (a b : Q) : Dbl.Qltb a b = false <-> b <= a.
Proof.
  unfold Dbl.Qltb. rewrite negb_false_iff. apply Qle_bool_iff.
Qed.

Lemma ltb_fin (a b : Q) : Dbl.ltb (Dbl.Fin a) (Dbl.Fin b) = true <-> a < b.
Proof. apply Qltb_lt. Qed.

Lemma leb_fin (a b : Q) : Dbl.leb (Dbl.Fin a) (Dbl.Fin b) = true <-> a <= b.
Proof. apply Qle_bool_iff. Qed.

Lemma bytes_eqb_eq (a b : bytes) : bytes_eqb a b = true <-> a = b.
Proof.
  unfold bytes_eqb. destruct (list_eq_dec Byte.byte_eq_dec a b); split; congruence.
Qed.

(** ** The benchmark loop in closed form *)

Section MeasuresFacts.

Variable now : nat -> Z.
Variable duration_cast_ms : Z -> Z.
Variable z : bytes -> unsigned -> bytes.
Variable unz : bytes -> unsigned -> bytes.
Variables do_enc do_dec do_verify : bool.
Variable original : bytes.

#[local] Abbreviation body := (measures_body now duration_cast_ms z unz do_enc do_dec do_verify original).
#[local] Abbreviation from := (measures_from now duration_cast_ms z unz do_enc do_dec do_verify original).
#[local] Abbreviation rec_of := (record_of now duration_cast_ms z unz do_enc do_dec do_verify original).
#[local] Abbreviation recs := (records_from now duration_cast_ms z unz do_enc do_dec do_verify original).

Lemma measures_body_eq (st : frame) (scheme : unsigned) :
  body st scheme =
  mk_frame (results st ++ [rec_of (zipped st) (tick st) scheme])
           (zipped_at_decode z do_enc original scheme (zipped st))
           (if do_dec then unz (zipped_at_decode z do_enc original scheme (zipped st)) scheme
            else unzipped st)
           (reads do_enc do_dec + tick st)
           (calls st ++ calls_of z do_enc do_dec original (zipped st) scheme).
Proof.
  unfold measures_body, enc_phase, dec_phase, record_of, calls_of,
    zipped_at_decode, reads.
  destruct do_enc, do_dec, do_verify; simpl;
    rewrite <- ?app_assoc, ?app_nil_r; reflexivity.
Qed.

(* with the encode phase on, a record does not depend on the stale [zipped] *)
Lemma record_of_enc (zin zin' : bytes) (t : nat) (scheme : unsigned) :
  do_enc = true -> rec_of zin t scheme = rec_of zin' t scheme.
Proof.
  intros E. unfold record_of, zipped_at_decode. now rewrite E.
Qed.

Lemma records_from_enc (zin zin' : bytes) (encs : list unsigned) :
  do_enc = true -> forall t, recs zin t encs = recs zin' t encs.
Proof.
  intros E. induction encs as [|s rest IH]; intros t; simpl.
  - reflexivity.
  - f_equal; [now apply record_of_enc | apply IH].
Qed.

(* with the encode phase off, [zipped] is never assigned *)
Lemma zipped_at_decode_off (scheme : unsigned) (zin : bytes) :
  do_enc = false -> zipped_at_decode z do_enc original scheme zin = zin.
Proof. intros E. unfold zipped_at_decode. now rewrite E. Qed.

Lemma measures_from_results (encs : list unsigned) :
  forall st, results (from st encs) = results st ++ recs (zipped st) (tick st) encs.
Proof.
  unfold measures_from. induction encs as [|s rest IH]; intros st; simpl.
  - now rewrite app_nil_r.
  - rewrite IH, measures_body_eq. simpl. rewrite <- app_assoc. simpl.
    do 2 f_equal.
    destruct (sumbool_of_bool do_enc) as [E|E].
    + now apply records_from_enc.
    + now rewrite zipped_at_decode_off.
Qed.

Lemma measures_eq (encs : list unsigned) (t0 : nat) :
  measures now duration_cast_ms z unz do_enc do_dec do_verify original encs t0
  = recs [] t0 encs.
Proof.
  unfold measures, measures_run. now rewrite measures_from_results.
Qed.

Lemma records_from_q (zin : bytes) (encs : list unsigned) :
  forall t, map q (recs zin t encs) = encs.
Proof.
  induction encs as [|s rest IH]; intros t; simpl; [reflexivity|].
  now rewrite IH.
Qed.

Lemma records_from_nth (zin : bytes) (encs : list unsigned) :
  forall t i,
    nth_error (recs zin t encs) i
    = option_map (rec_of zin (i * reads do_enc do_dec + t)) (nth_error encs i).
Proof.
  induction encs as [|s rest IH]; intros t i; simpl.
  - now destruct i.
  - destruct i as [|i]; simpl; [reflexivity|].
    rewrite IH. now replace (i * reads do_enc do_dec + (reads do_enc do_dec + t))%nat
      with (reads do_enc do_dec + i * reads do_enc do_dec + t)%nat by lia.
Qed.

Lemma records_from_In (zin : bytes) (encs : list unsigned) (r : measure) :
  forall t, In r (recs zin t encs) -> exists t' s, r = rec_of zin t' s /\ In s encs.
Proof.
  induction encs as [|s rest IH]; intros t H; simpl in H.
  - contradiction.
  - destruct H as [H|H].
    + exists t, s. split; [now symmetry | now left].
    + destruct (IH _ H) as (t' & s' & E & I). exists t', s'. split; [exact E | now right].
Qed.

Lemma measures_from_calls (encs : list unsigned) :
  forall st, calls (from st encs)
             = calls st ++ flat_map (calls_of z do_enc do_dec original (zipped st)) encs.
Proof.
  unfold measures_from. induction encs as [|s rest IH]; intros st; simpl.
  - now rewrite app_nil_r.
  - rewrite IH, measures_body_eq. simpl. rewrite <- app_assoc. do 2 f_equal.
    destruct (sumbool_of_bool do_enc) as [E|E].
    + apply flat_map_ext. intros s'. unfold calls_of, zipped_at_decode. now rewrite E.
    + now rewrite zipped_at_decode_off.
Qed.

End MeasuresFacts.

(** ** The pass field *)

Lemma measures_pass_value
    (now : nat -> Z) (duration_cast_ms : Z -> Z) (z unz : bytes -> unsigned -> bytes)
    (do_enc do_dec do_verify : bool) (original : bytes)
    (encs : list unsigned) (t0 : nat) (r : measure) :
  In r (measures now duration_cast_ms z unz do_enc do_dec do_verify original encs t0) ->
  pass r = if do_verify && do_enc && do_dec
           then bytes_eqb original (unz (z original (q r)) (q r)) else true.
Proof.
  intros H. rewrite measures_eq in H.
  apply records_from_In in H as (t' & s & -> & _).
  unfold record_of, zipped_at_decode; simpl.
  destruct do_verify, do_enc, do_dec; reflexivity.
Qed.

(** C2: for every record produced by [measures], when verification was
    requested ([do_verify], [do_enc] and [do_dec] all enabled) the pass
    field is true exactly when decoding the encoded payload reproduced the
    original byte for byte; when it was not requested, pass is true. *)
Theorem measures_pass_invariant
    (now : nat -> Z) (duration_cast_ms : Z -> Z) (z unz : bytes -> unsigned -> bytes)
    (do_enc do_dec do_verify : bool) (original : bytes)
    (encs : list unsigned) (t0 : nat) (r : measure) :
  In r (measures now duration_cast_ms z unz do_enc do_dec do_verify original encs t0) ->
  (do_verify && do_enc && do_dec = true ->
     (pass r = true <-> unz (z original (q r)) (q r) = original)) /\
  (do_verify && do_enc && do_dec = false -> pass r = true).
Proof.
  intros H. rewrite (measures_pass_value _ _ _ _ _ _ _ _ _ _ _ H).
  split; intros F; rewrite F.
  - rewrite bytes_eqb_eq. split; congruence.
  - reflexivity.
Qed.

Lemma measures_pass_invariant_witness :
  let rs := measures steady_clock whole_ms z_copy (unz_faulty LZ4)
              true true true payload3 [LZ4; SHOCO] 0 in
  let r := nth 0 rs measure_default in
  (true && true && true = true ->
     (pass r = true <-> unz_faulty LZ4 (z_copy payload3 (q r)) (q r) = payload3)) /\
  (true && true && true = false -> pass r = true).
Proof.
  intros rs r.
  apply (@measures_pass_invariant steady_clock whole_ms z_copy (unz_faulty LZ4)
           true true true payload3 [LZ4; SHOCO] 0%nat r).
  vm_compute. left. reflexivity.
Defined.

(** ** One record per candidate *)

Lemma record_of_agree
    (now : nat -> Z) (duration_cast_ms : Z -> Z) (z unz z' unz' : bytes -> unsigned -> bytes)
    (do_enc do_dec do_verify : bool) (original zin : bytes) (t : nat) (s : unsigned) :
  (forall x, z' x s = z x s /\ unz' x s = unz x s) ->
  record_of now duration_cast_ms z' unz' do_enc do_dec do_verify original zin t s
  = record_of now duration_cast_ms z unz do_enc do_dec do_verify original zin t s.
Proof.
  intros A. unfold record_of, zipped_at_decode.
  rewrite (proj1 (A original)), (proj2 (A _)). reflexivity.
Qed.

(** C3, as the code has it: [measures] returns exactly one record per
    candidate identifier, in the order supplied.  When verification is
    requested ([do_verify], [do_enc] and [do_dec] all enabled) a record has
    pass = false exactly when its candidate fails to round-trip the
    payload, so the failing candidate fails and the others pass; when it is
    not requested every record has pass = true.  And the record of every
    candidate other than [bad] is the same whatever the codec does for
    [bad]: a failing codec does not disturb the rest of the benchmark. *)
Theorem measures_one_record_per_candidate
    (now : nat -> Z) (duration_cast_ms : Z -> Z) (z unz : bytes -> unsigned -> bytes)
    (do_enc do_dec do_verify : bool) (original : bytes)
    (encs : list unsigned) (t0 : nat) :
  map q (measures now duration_cast_ms z unz do_enc do_dec do_verify original encs t0)
    = encs /\
  (forall r,
     In r (measures now duration_cast_ms z unz do_enc do_dec do_verify original encs t0) ->
     (do_verify && do_enc && do_dec = true ->
      (pass r = false <-> unz (z original (q r)) (q r) <> original)) /\
     (do_verify && do_enc && do_dec = false -> pass r = true)) /\
  (forall (z' unz' : bytes -> unsigned -> bytes) (bad : unsigned),
     (forall x s, s <> bad -> z' x s = z x s /\ unz' x s = unz x s) ->
     forall i s, nth_error encs i = Some s -> s <> bad ->
       exists r,
         q r = s /\
         nth_error (measures now duration_cast_ms z unz do_enc do_dec do_verify
                      original encs t0) i = Some r /\
         nth_error (measures now duration_cast_ms z' unz' do_enc do_dec do_verify
                      original encs t0) i = Some r).
Proof.
  split; [|split].
  - rewrite measures_eq. apply records_from_q.
  - intros r H. rewrite (measures_pass_value _ _ _ _ _ _ _ _ _ _ _ H).
    split; intros F; rewrite F; [|reflexivity].
    rewrite <- not_true_iff_false, bytes_eqb_eq. split; intros N E; apply N; congruence.
  - intros z' unz' bad A i s E N.
    rewrite !measures_eq, !records_from_nth, E. simpl.
    eexists. split; [|split; [reflexivity|]].
    + reflexivity.
    + f_equal. apply record_of_agree. intros x. now apply A.
Qed.

Lemma measures_one_record_per_candidate_witness :
  exists r,
    q r = SHOCO /\
    nth_error (measures steady_clock whole_ms z_copy unz_copy true true true
                 payload3 [LZ4; SHOCO] 0) 1 = Some r /\
    nth_error (measures steady_clock whole_ms z_copy (unz_faulty LZ4) true true true
                 payload3 [LZ4; SHOCO] 0) 1 = Some r.
Proof.
  apply (proj2 (proj2 (@measures_one_record_per_candidate steady_clock whole_ms
           z_copy unz_copy true true true payload3 [LZ4; SHOCO] 0%nat))
           z_copy (unz_faulty LZ4) LZ4).
  - intros x s N. split; [reflexivity|].
    unfold unz_faulty, unz_copy. destruct (N.eqb_spec s LZ4); [contradiction|reflexivity].
  - reflexivity.
  - discriminate.
Defined.

(** C3, as stated, fails when verification is not requested: with
    [do_verify] off, line 118 sets pass = true for the LZ4 candidate
    although its decoder loses the payload. *)
Lemma unverified_run_passes_failing_candidate :
  exists r,
    In r (measures steady_clock whole_ms z_copy (unz_faulty LZ4) true true false
            payload3 [LZ4; SHOCO] 0) /\
    q r = LZ4 /\
    unz_faulty LZ4 (z_copy payload3 (q r)) (q r) <> payload3 /\
    pass r = true.
Proof.
  exists (nth 0 (measures steady_clock whole_ms z_copy (unz_faulty LZ4) true true false
                   payload3 [LZ4; SHOCO] 0) measure_default).
  split; [left; reflexivity|]. split; [reflexivity|]. split; [discriminate | reflexivity].
Qed.

(** ** The ratio field *)

Lemma ratio_of_nonempty (zsize osize : nat) :
  (0 < osize)%nat ->
  ratio_of zsize osize
  = Dbl.Fin (inject_Z 100 +
             - (inject_Z 100 * (inject_Z (Z.of_nat zsize) / inject_Z (Z.of_nat osize)))).
Proof.
  intros H. unfold ratio_of, Dbl.sub, Dbl.mul, Dbl.div, Dbl.of_size, Dbl.of_Z, Dbl.sign.
  replace (inject_Z (Z.of_nat osize) ?= 0) with Gt; [reflexivity|].
  symmetry. apply Qgt_alt. change 0 with (inject_Z 0). rewrite <- Zlt_Qlt. lia.
Qed.






(* the zero and sign tests of the ratio on binary64 numbers, at sizes next
   to 2^53 where the quotient is one rounding step away from 1 *)
Lemma ratio_binary64_sign_next_to_one :
  PrimFloat.eqb (ratio_binary64 (2 ^ 53 - 1) (2 ^ 53 - 1)) (double_of_Z 0) = true /\
  PrimFloat.ltb (double_of_Z 0) (ratio_binary64 (2 ^ 53 - 2) (2 ^ 53 - 1)) = true /\
  PrimFloat.ltb (ratio_binary64 (2 ^ 53 - 1) (2 ^ 53 - 2)) (double_of_Z 0) = true.
Proof.
  repeat split; vm_compute; reflexivity.
Qed.

(** ** The order of the codec calls *)

Lemma measures_run_calls
    (now : nat -> Z) (duration_cast_ms : Z -> Z) (z unz : bytes -> unsigned -> bytes)
    (do_enc do_dec do_verify : bool) (original : bytes)
    (encs : list unsigned) (t0 : nat) :
  calls (measures_run now duration_cast_ms z unz do_enc do_dec do_verify original encs t0)
  = flat_map (calls_of z do_enc do_dec original []) encs.
Proof.
  unfold measures_run. now rewrite measures_from_calls.
Qed.

Lemma flat_map_map {A B C : Type} (f : B -> C) (g : A -> list B) (l : list A) :
  map f (flat_map g l) = flat_map (fun a => map f (g a)) l.
Proof.
  induction l as [|a l IH]; simpl; [reflexivity|]. now rewrite map_app, IH.
Qed.

Lemma encode_then_decode_log (z : bytes -> unsigned -> bytes) (do_dec : bool)
    (original : bytes) (encs : list unsigned) :
  decode_follows_encode z original
    (flat_map (fun s => CallZ original s ::
                        (if do_dec then [CallUnz (z original s) s] else [])) encs).
Proof.
  induction encs as [|s0 rest IH]; intros before after input scheme E; simpl in E.
  - now destruct before.
  - destruct before as [|c before]; [discriminate E|].
    simpl in E. injection E as <- E.
    destruct do_dec; simpl in E.
    + destruct before as [|c before]; simpl in E.
      * injection E as <- <- _. split; [reflexivity|]. now exists [].
      * injection E as <- E. destruct (IH _ _ _ _ E) as (I & before' & ->).
        split; [exact I|].
        now exists (CallZ original s0 :: CallUnz (z original s0) s0 :: before').
    + destruct (IH _ _ _ _ E) as (I & before' & ->).
      split; [exact I|]. now exists (CallZ original s0 :: before').
Qed.

(** X16: whatever the flags, the codec calls of [measures] follow the
    order of the candidate list; and when the encode phase is enabled, each
    candidate is first encoded from the original and then, if the decode
    phase is enabled, decoded from the bytes that this encode call
    returned, before the next candidate is touched. *)
Theorem measures_call_order
    (now : nat -> Z) (duration_cast_ms : Z -> Z) (z unz : bytes -> unsigned -> bytes)
    (do_enc do_dec do_verify : bool) (original : bytes)
    (encs : list unsigned) (t0 : nat) :
  map call_scheme
      (calls (measures_run now duration_cast_ms z unz do_enc do_dec do_verify
                original encs t0))
    = flat_map (fun s => (if do_enc then [s] else []) ++ (if do_dec then [s] else [])) encs /\
  calls (measures_run now duration_cast_ms z unz true do_dec do_verify original encs t0)
    = flat_map (fun s => CallZ original s ::
                         (if do_dec then [CallUnz (z original s) s] else [])) encs /\
  decode_follows_encode z original
    (calls (measures_run now duration_cast_ms z unz true do_dec do_verify original encs t0)).
Proof.
  rewrite !measures_run_calls.
  assert (E : flat_map (calls_of z true do_dec original []) encs
              = flat_map (fun s => CallZ original s ::
                                   (if do_dec then [CallUnz (z original s) s] else [])) encs).
  { apply flat_map_ext. intros s. reflexivity. }
  split; [|split].
  - rewrite flat_map_map. apply flat_map_ext. intros s. unfold calls_of.
    destruct do_enc, do_dec; reflexivity.
  - exact E.
  - rewrite E. apply encode_then_decode_log.
Qed.

(** C6, evaluated on the code: in the decode-only run that
    [find_fastest_decompressor] makes, [zipped] is never assigned; no
    encode call precedes the decode call, and the decoder of LZ4 is handed
    the empty string instead of the encoded payload. *)
Lemma decode_only_run_decodes_empty_string :
  calls (measures_run steady_clock whole_ms z_copy unz_copy false true false
           payload3 [LZ4] 0) = [CallUnz [] LZ4] /\
  z_copy payload3 LZ4 <> [] /\
  ~ decode_follows_encode z_copy payload3
      (calls (measures_run steady_clock whole_ms z_copy unz_copy false true false
                payload3 [LZ4] 0)).
Proof.
  split; [reflexivity|]. split; [discriminate|].
  intros H. destruct (H [] [] [] LZ4 eq_refl) as [E _]. discriminate E.
Qed.

(** ** The selection loops *)

Lemma ltb_false_leb (x y : Dbl.double) :
  Dbl.is_finite x -> Dbl.is_finite y -> Dbl.ltb x y = false -> Dbl.leb y x = true.
Proof.
  intros [a ->] [b ->] H. apply leb_fin. now apply Qltb_ge.
Qed.

Lemma ltb_leb (x y : Dbl.double) :
  Dbl.is_finite x -> Dbl.is_finite y -> Dbl.ltb x y = true -> Dbl.leb x y = true.
Proof.
  intros [a ->] [b ->] H. apply leb_fin. apply ltb_fin in H. now apply Qlt_le_weak.
Qed.

Lemma ltb_leb_trans (x y w : Dbl.double) :
  Dbl.is_finite x -> Dbl.is_finite y -> Dbl.is_finite w ->
  Dbl.ltb x y = true -> Dbl.leb y w = true -> Dbl.ltb x w = true.
Proof.
  intros [a ->] [b ->] [c ->] H1 H2. apply ltb_fin. apply ltb_fin in H1.
  apply leb_fin in H2. eapply Qlt_le_trans; eassumption.
Qed.

Lemma ltb_trans (x y w : Dbl.double) :
  Dbl.is_finite x -> Dbl.is_finite y -> Dbl.is_finite w ->
  Dbl.ltb x y = true -> Dbl.ltb y w = true -> Dbl.ltb x w = true.
Proof.
  intros Fx Fy Fw H1 H2. apply (ltb_leb_trans Fx Fy Fw H1). now apply ltb_leb.
Qed.

Lemma leb_refl (x : Dbl.double) : Dbl.is_finite x -> Dbl.leb x x = true.
Proof. intros [a ->]. apply leb_fin, Qle_refl. Qed.

Lemma nth_error_snoc {A : Type} (l : list A) (x y : A) (j : nat) :
  nth_error (l ++ [x]) j = Some y ->
  ((j < length l)%nat /\ nth_error l j = Some y) \/ (j = length l /\ y = x).
Proof.
  intros H. destruct (Nat.lt_ge_cases j (length l)) as [L|G].
  - left. split; [exact L|]. now rewrite nth_error_app1 in H.
  - right. rewrite nth_error_app2 in H by exact G.
    destruct (j - length l)%nat as [|k] eqn:E; simpl in H.
    + split; [lia | congruence].
    + now destruct k.
Qed.

(* a loop whose test no record satisfies against the initial key keeps its
   initial choice *)
Lemma select_none (test : Dbl.double -> measure -> bool) (key : measure -> Dbl.double)
    (rs : list measure) (st : unsigned * Dbl.double) :
  (forall r, In r rs -> test (snd st) r = false) ->
  fold_left (select_step test key) rs st = st.
Proof.
  induction rs as [|r rs IH]; intros H; simpl; [reflexivity|].
  unfold select_step at 2. rewrite (H r (or_introl eq_refl)).
  apply IH. intros r' I. apply H. now right.
Qed.

Section Lowest.

Variable key : measure -> Dbl.double.
Variable q0 : unsigned.
Variable b0 : Q.

#[local] Abbreviation run rs := (fold_left (select_step (lower_test key) key) rs (q0, Dbl.Fin b0)).

Lemma lowest_fold (rs : list measure) :
  Forall (fun r => Dbl.is_finite (key r)) rs ->
  (run rs = (q0, Dbl.Fin b0) /\
   forall r, In r rs -> pass r = true -> Dbl.ltb (key r) (Dbl.Fin b0) = false)
  \/
  (exists i r, first_lowest key rs i r /\ run rs = (q r, key r) /\
               Dbl.ltb (key r) (Dbl.Fin b0) = true).
Proof.
  assert (Fb : Dbl.is_finite (Dbl.Fin b0)) by (now exists b0).
  induction rs as [|x rs IH] using rev_ind; intros F.
  - left. split; [reflexivity | intros r []].
  - apply Forall_app in F as [F Fx]. apply Forall_inv in Fx.
    assert (Fin : forall r, In r rs -> Dbl.is_finite (key r))
      by (now apply Forall_forall).
    assert (Fnth : forall j r, nth_error rs j = Some r -> Dbl.is_finite (key r))
      by (intros j r E; eapply Fin, nth_error_In, E).
    rewrite fold_left_app. simpl.
    destruct (IH F) as [[E N] | (i & r & (Hi & Hp & Hle & Hlt) & E & B)];
      rewrite E; unfold select_step, lower_test; simpl.
    + assert (Nle : forall j r', nth_error rs j = Some r' -> pass r' = true ->
                      Dbl.leb (Dbl.Fin b0) (key r') = true).
      { intros j r' Hj Pr'. apply ltb_false_leb; [eapply Fnth, Hj | exact Fb |].
        apply N; [eapply nth_error_In, Hj | exact Pr']. }
      destruct (pass x) eqn:P; simpl; [destruct (Dbl.ltb (key x) (Dbl.Fin b0)) eqn:L|].
      * right. exists (length rs), x. split; [|split; [reflexivity | exact L]].
        split; [|split; [exact P|split]].
        -- now rewrite nth_error_app2, Nat.sub_diag.
        -- intros j r' Hj Pr'. apply nth_error_snoc in Hj as [[Lj Hj]|[_ ->]].
           ++ apply ltb_leb; [exact Fx | eapply Fnth, Hj |].
              apply (@ltb_leb_trans (key x) (Dbl.Fin b0) (key r'));
                [exact Fx | exact Fb | eapply Fnth, Hj | exact L | eapply Nle; eassumption].
           ++ now apply leb_refl.
        -- intros j r' Lj Hj Pr'. apply nth_error_snoc in Hj as [[_ Hj]|[-> _]]; [|lia].
           apply (@ltb_leb_trans (key x) (Dbl.Fin b0) (key r'));
             [exact Fx | exact Fb | eapply Fnth, Hj | exact L | eapply Nle; eassumption].
      * left. split; [reflexivity|]. intros r I Pr.
        apply in_app_or in I as [I|[<-|[]]]; [now apply N | exact L].
      * left. split; [reflexivity|]. intros r I Pr.
        apply in_app_or in I as [I|[<-|[]]]; [now apply N | congruence].
    + assert (Fr : Dbl.is_finite (key r)) by (eapply Fnth, Hi).
      assert (Li : (i < length rs)%nat) by (apply nth_error_Some; congruence).
      destruct (pass x) eqn:P; simpl; [destruct (Dbl.ltb (key x) (key r)) eqn:L|].
      * right. exists (length rs), x. split; [|split; [reflexivity|]].
        -- split; [|split; [exact P|split]].
           ++ now rewrite nth_error_app2, Nat.sub_diag.
           ++ intros j r' Hj Pr'. apply nth_error_snoc in Hj as [[Lj Hj]|[_ ->]].
              ** apply ltb_leb; [exact Fx | eapply Fnth, Hj |].
                 apply (@ltb_leb_trans (key x) (key r) (key r'));
                   [exact Fx | exact Fr | eapply Fnth, Hj | exact L | eapply Hle; eassumption].
              ** now apply leb_refl.
           ++ intros j r' Lj Hj Pr'. apply nth_error_snoc in Hj as [[_ Hj]|[-> _]]; [|lia].
              apply (@ltb_leb_trans (key x) (key r) (key r'));
                [exact Fx | exact Fr | eapply Fnth, Hj | exact L | eapply Hle; eassumption].
        -- apply (@ltb_trans (key x) (key r) (Dbl.Fin b0)); assumption.
      * right. exists i, r. split; [|split; [reflexivity | exact B]].
        split; [|split; [exact Hp|split]].
        -- now rewrite nth_error_app1.
        -- intros j r' Hj Pr'. apply nth_error_snoc in Hj as [[Lj Hj]|[_ ->]].
           ++ eapply Hle; eassumption.
           ++ now apply ltb_false_leb.
        -- intros j r' Lj Hj Pr'. apply nth_error_snoc in Hj as [[_ Hj]|[-> _]]; [|lia].
           eapply Hlt; eassumption.
      * right. exists i, r. split; [|split; [reflexivity | exact B]].
        split; [|split; [exact Hp|split]].
        -- now rewrite nth_error_app1.
        -- intros j r' Hj Pr'. apply nth_error_snoc in Hj as [[Lj Hj]|[_ ->]].
           ++ eapply Hle; eassumption.
           ++ congruence.
        -- intros j r' Lj Hj Pr'. apply nth_error_snoc in Hj as [[_ Hj]|[-> _]]; [|lia].
           eapply Hlt; eassumption.
Qed.

End Lowest.

Lemma measures_times_finite
    (now : nat -> Z) (duration_cast_ms : Z -> Z) (z unz : bytes -> unsigned -> bytes)
    (do_enc do_dec do_verify : bool) (original : bytes) (encs : list unsigned) (t0 : nat) :
  Forall (fun r => Dbl.is_finite (enctime r) /\ Dbl.is_finite (dectime r))
         (measures now duration_cast_ms z unz do_enc do_dec do_verify original encs t0).
Proof.
  apply Forall_forall. intros r H. rewrite measures_eq in H.
  apply records_from_In in H as (t' & s & -> & _). unfold record_of; simpl.
  split; [destruct do_enc | destruct do_dec]; unfold Dbl.of_Z; eexists; reflexivity.
Qed.

(** C5, as the code has it: when some passing record has an encode time
    below the initial bound of 9999999 ms, [find_fastest_compressor]
    returns the identifier of the passing record with the lowest encode
    time, the first such record in the supplied order when several tie;
    when no passing record is below that bound it returns NONE. *)
Theorem find_fastest_compressor_first_lowest
    (now : nat -> Z) (duration_cast_ms : Z -> Z) (z unz : bytes -> unsigned -> bytes)
    (original : bytes) (encs : list unsigned) (t0 : nat) :
  ((exists r,
      In r (measures now duration_cast_ms z unz true false false original encs t0) /\
      pass r = true /\ Dbl.ltb (enctime r) (Dbl.of_Z 9999999) = true) ->
   exists i r,
     first_fastest (measures now duration_cast_ms z unz true false false original encs t0) i r /\
     find_fastest_compressor now duration_cast_ms z unz original encs t0 = q r) /\
  ((forall r,
      In r (measures now duration_cast_ms z unz true false false original encs t0) ->
      pass r = true -> Dbl.ltb (enctime r) (Dbl.of_Z 9999999) = false) ->
   find_fastest_compressor now duration_cast_ms z unz original encs t0 = NONE).
Proof.
  unfold find_fastest_compressor, first_fastest, Dbl.of_Z.
  change fastest_enc_step with (select_step (lower_test enctime) enctime).
  destruct (@lowest_fold enctime NONE (inject_Z 9999999)
              (measures now duration_cast_ms z unz true false false original encs t0))
    as [[E N] | (i & r & F & E & B)].
  - eapply Forall_impl; [|apply measures_times_finite]. now intros r [H _].
  - split.
    + intros (r & I & P & L). rewrite (N r I P) in L. discriminate.
    + intros _. now rewrite E.
  - split.
    + intros _. exists i, r. split; [exact F|]. now rewrite E.
    + intros N. destruct F as (Hi & Hp & _).
      rewrite (N r (nth_error_In _ _ Hi) Hp) in B. discriminate.
Qed.

Lemma find_fastest_compressor_first_lowest_witness :
  exists i r,
    first_fastest (measures steady_clock whole_ms z_copy unz_copy true false false
                     payload3 [LZ4; SHOCO] 0) i r /\
    find_fastest_compressor steady_clock whole_ms z_copy unz_copy payload3 [LZ4; SHOCO] 0
      = q r.
Proof.
  apply (proj1 (@find_fastest_compressor_first_lowest steady_clock whole_ms z_copy unz_copy
                  payload3 [LZ4; SHOCO] 0%nat)).
  eexists. split; [left; reflexivity|]. split; reflexivity.
Defined.

(** C5, as stated, fails when the only candidate needs 9999999 ms to
    encode: its record passes and is the fastest, and NONE is returned. *)
Lemma find_fastest_compressor_slow_candidate :
  (exists r,
     In r (measures slow_clock whole_ms z_copy unz_copy true false false payload3 [LZ4] 0) /\
     pass r = true) /\
  find_fastest_compressor slow_clock whole_ms z_copy unz_copy payload3 [LZ4] 0 = NONE /\
  ~ (exists i r,
       first_fastest (measures slow_clock whole_ms z_copy unz_copy true false false
                        payload3 [LZ4] 0) i r /\
       find_fastest_compressor slow_clock whole_ms z_copy unz_copy payload3 [LZ4] 0 = q r).
Proof.
  split; [|split].
  - eexists. split; [left; reflexivity | reflexivity].
  - reflexivity.
  - intros (i & r & (Hi & _) & E).
    destruct i as [|i]; simpl in Hi.
    + inversion Hi; subst r. discriminate E.
    + now destruct i.
Qed.

(** C10: each of the three selection functions returns NONE for an empty
    candidate list, and whenever no record satisfies the test of its loop
    (the record passes and beats the initial ratio and the threshold, or
    the initial time). *)
Theorem find_returns_none
    (now : nat -> Z) (duration_cast_ms : Z -> Z) (z unz : bytes -> unsigned -> bytes)
    (original : bytes) (encs : list unsigned) (t0 : nat) :
  (find_smallest_compressor now duration_cast_ms z unz original [] t0 = NONE /\
   find_fastest_compressor now duration_cast_ms z unz original [] t0 = NONE /\
   find_fastest_decompressor now duration_cast_ms z unz original [] t0 = NONE) /\
  ((forall r,
      In r (measures now duration_cast_ms z unz true false false original encs t0) ->
      smallest_pred (Dbl.of_Z 0) r = false) ->
   find_smallest_compressor now duration_cast_ms z unz original encs t0 = NONE) /\
  ((forall r,
      In r (measures now duration_cast_ms z unz true false false original encs t0) ->
      fastest_enc_pred (Dbl.of_Z 9999999) r = false) ->
   find_fastest_compressor now duration_cast_ms z unz original encs t0 = NONE) /\
  ((forall r,
      In r (measures now duration_cast_ms z unz false true false original encs t0) ->
      fastest_dec_pred (Dbl.of_Z 9999999) r = false) ->
   find_fastest_decompressor now duration_cast_ms z unz original encs t0 = NONE).
Proof.
  split; [repeat split|].
  unfold find_smallest_compressor, find_fastest_compressor, find_fastest_decompressor.
  change smallest_step with (select_step smallest_pred ratio).
  change fastest_enc_step with (select_step fastest_enc_pred enctime).
  change fastest_dec_step with (select_step fastest_dec_pred dectime).
  repeat split; intros H; now rewrite select_none.
Qed.

Lemma find_returns_none_witness :
  find_smallest_compressor steady_clock whole_ms z_half_lz4 unz_copy payload100
    [LZ4; SHOCO] 0 = NONE /\
  find_fastest_compressor slow_clock whole_ms z_copy unz_copy payload3 [LZ4; SHOCO] 0 = NONE /\
  find_fastest_decompressor slow_clock whole_ms z_copy unz_copy payload3 [LZ4; SHOCO] 0 = NONE.
Proof.
  split; [|split].
  - apply (proj1 (proj2 (@find_returns_none steady_clock whole_ms z_half_lz4 unz_copy
                           payload100 [LZ4; SHOCO] 0%nat))).
    intros r H. vm_compute in H. destruct H as [<-|[<-|[]]]; reflexivity.
  - apply (proj1 (proj2 (proj2 (@find_returns_none slow_clock whole_ms z_copy unz_copy
                                   payload3 [LZ4; SHOCO] 0%nat)))).
    intros r H. vm_compute in H. destruct H as [<-|[<-|[]]]; reflexivity.
  - apply (proj2 (proj2 (proj2 (@find_returns_none slow_clock whole_ms z_copy unz_copy
                                   payload3 [LZ4; SHOCO] 0%nat)))).
    intros r H. vm_compute in H. destruct H as [<-|[<-|[]]]; reflexivity.
Defined.

(* whatever the payload, a candidate whose ratio is below
   100 - NO_COMPRESSION_TRESHOLD / 100.0 is not selected *)
Lemma find_smallest_compressor_below_bar
    (now : nat -> Z) (duration_cast_ms : Z -> Z) (z unz : bytes -> unsigned -> bytes)
    (original : bytes) (encs : list unsigned) (t0 : nat) :
  (forall r,
     In r (measures now duration_cast_ms z unz true false false original encs t0) ->
     Dbl.geb (ratio r) smallest_bar = false) ->
  find_smallest_compressor now duration_cast_ms z unz original encs t0 = NONE.
Proof.
  intros H. unfold find_smallest_compressor.
  change smallest_step with (select_step smallest_pred ratio).
  rewrite select_none; [reflexivity|].
  intros r I. unfold smallest_pred. rewrite (H r I). apply andb_false_r.
Qed.

(** C1, evaluated on the code: a 100-byte payload that LZ4 halves and the
    other candidates shrink by a tenth.  Every record passes, the ratios
    are 50, 10 and 10, and the loop compares them with
    100 - NO_COMPRESSION_TRESHOLD / 100.0 = 99.95 instead of 5, so NONE is
    returned and not LZ4.  A payload that every candidate shrinks by 3
    percent gives NONE as well. *)
Theorem find_smallest_compressor_rejects_half_ratio :
  map q (measures steady_clock whole_ms z_half_lz4 unz_copy true false false
           payload100 [LZ4; SHOCO; MINIZ] 0) = [LZ4; SHOCO; MINIZ] /\
  map pass (measures steady_clock whole_ms z_half_lz4 unz_copy true false false
              payload100 [LZ4; SHOCO; MINIZ] 0) = [true; true; true] /\
  map (fun r => Dbl.eqb (ratio r) (Dbl.of_Z 50))
      (measures steady_clock whole_ms z_half_lz4 unz_copy true false false
         payload100 [LZ4; SHOCO; MINIZ] 0) = [true; false; false] /\
  map (fun r => Dbl.eqb (ratio r) (Dbl.of_Z 10))
      (measures steady_clock whole_ms z_half_lz4 unz_copy true false false
         payload100 [LZ4; SHOCO; MINIZ] 0) = [false; true; true] /\
  Dbl.eqb smallest_bar (Dbl.Fin (1999 # 20)) = true /\
  find_smallest_compressor steady_clock whole_ms z_half_lz4 unz_copy
    payload100 [LZ4; SHOCO; MINIZ] 0 = NONE /\
  NONE <> LZ4 /\
  find_smallest_compressor steady_clock whole_ms z_three_percent unz_copy
    payload100 encodings 0 = NONE.
Proof.
  repeat split; try reflexivity. discriminate.
Qed.

(** ** The buffer-owning templates *)

Lemma resize_length (n : nat) (buf : bytes) : length (resize n buf) = n.
Proof.
  unfold resize. rewrite length_app, length_firstn, repeat_length. lia.
Qed.

Lemma store_length (written buf : bytes) : length (store written buf) = length buf.
Proof.
  unfold store. rewrite length_firstn, length_app, length_skipn. lia.
Qed.

Lemma store_prefix (written buf : bytes) :
  (length written <= length buf)%nat ->
  firstn (length written) (store written buf) = written.
Proof.
  intros H. unfold store. rewrite firstn_firstn, Nat.min_l by exact H.
  now rewrite firstn_app, Nat.sub_diag, firstn_all, app_nil_r.
Qed.

Lemma store_all (written buf : bytes) :
  length written = length buf -> store written buf = written.
Proof.
  intros H. rewrite <- (store_prefix written buf) at 2 by lia.
  rewrite H, <- (store_length written buf). symmetry. apply firstn_all.
Qed.

Lemma resize_store (written buf : bytes) :
  (length written <= length buf)%nat ->
  resize (length written) (store written buf) = written.
Proof.
  intros H. unfold resize. rewrite store_prefix by exact H.
  rewrite store_length.
  replace (length written - length buf)%nat with 0%nat by lia.
  apply app_nil_r.
Qed.

(* line 58, on the paths that reach the pointer-level call *)
Lemma pack_reaches_call
    (bound : unsigned -> nat -> nat) (pack_ptr : unsigned -> bytes -> bytes -> bool * bytes * nat)
    (buffer_out buffer_in : bytes) (id : unsigned) :
  buffer_in <> [] -> bound id (length buffer_in) <> 0%nat ->
  pack bound pack_ptr buffer_out buffer_in id
  = let out := resize (bound id (length buffer_in)) buffer_out in
    let '(result, written, zlen) := pack_ptr id buffer_in out in
    if result then (Returned true, resize zlen (store written out))
    else (Returned false, []).
Proof.
  intros Hin Hb. unfold pack.
  destruct buffer_in as [|b rest]; [congruence|].
  pose proof (resize_length (bound id (length (b :: rest))) buffer_out) as L.
  destruct (resize (bound id (length (b :: rest))) buffer_out) as [|c out]; [simpl in *; lia|].
  reflexivity.
Qed.

Lemma pack_result_shape
    (bound : unsigned -> nat -> nat) (pack_ptr : unsigned -> bytes -> bytes -> bool * bytes * nat)
    (buffer_out buffer_in : bytes) (id : unsigned) :
  buffer_in <> [] -> bound id (length buffer_in) <> 0%nat ->
  exists result written zlen,
    pack_ptr id buffer_in (resize (bound id (length buffer_in)) buffer_out)
      = (result, written, zlen) /\
    fst (pack bound pack_ptr buffer_out buffer_in id) = Returned result /\
    length (snd (pack bound pack_ptr buffer_out buffer_in id)) = if result then zlen else 0%nat.
Proof.
  intros Hin Hb. rewrite pack_reaches_call by assumption. cbv zeta.
  destruct (pack_ptr id buffer_in _) as [[result written] zlen].
  exists result, written, zlen. split; [reflexivity|].
  destruct result; simpl; [rewrite resize_length|]; auto.
Qed.

(** C7, evaluated on the code: for every identifier, bound and
    pointer-level codec, [pack] of a zero-length buffer evaluates
    [buffer_in.at(0)] and throws std::out_of_range before the codec is
    called; [unpack] does the same on a zero-length compressed buffer and
    on a zero-length output buffer. *)
Theorem pack_empty_input_throws
    (bound : unsigned -> nat -> nat)
    (pack_ptr unpack_ptr : unsigned -> bytes -> bytes -> bool * bytes * nat)
    (buffer_out : bytes) (id : unsigned) :
  fst (pack bound pack_ptr buffer_out [] id) = Thrown out_of_range /\
  fst (unpack unpack_ptr buffer_out [] id) = Thrown out_of_range /\
  (forall buffer_in, fst (unpack unpack_ptr [] buffer_in id) = Thrown out_of_range).
Proof.
  split; [reflexivity|]. split; [reflexivity|].
  intros [|b rest]; reflexivity.
Qed.

(** C8, evaluated on the code: [pack] of a zero-length buffer does not
    return false; it throws and leaves the output container resized to the
    worst case [bound(q, 0)], 16 zero bytes for a bound of len + 16. *)
Theorem pack_empty_input_keeps_worst_case_buffer
    (bound : unsigned -> nat -> nat)
    (pack_ptr : unsigned -> bytes -> bytes -> bool * bytes * nat)
    (buffer_out : bytes) (id : unsigned) :
  pack bound pack_ptr buffer_out [] id
    = (Thrown out_of_range, resize (bound id 0%nat) buffer_out) /\
  length (snd (pack bound pack_ptr buffer_out [] id)) = bound id 0%nat /\
  pack bound_plus16 pack_ptr_copy [] [] DEFAULT
    = (Thrown out_of_range, repeat "000"%byte 16).
Proof.
  split; [reflexivity|]. split; [|reflexivity].
  simpl. apply resize_length.
Qed.

(** * Further properties of the header *)

(** ** The templates: exceptions, sizes and contents *)

(** X1: [pack] throws std::out_of_range exactly when the input container
    is empty or the worst-case bound of the input length is 0; in every
    other case it returns a boolean. *)
Theorem pack_throws_iff
    (bound : unsigned -> nat -> nat)
    (pack_ptr : unsigned -> bytes -> bytes -> bool * bytes * nat)
    (buffer_out buffer_in : bytes) (id : unsigned) :
  fst (pack bound pack_ptr buffer_out buffer_in id) = Thrown out_of_range
  <-> buffer_in = [] \/ bound id (length buffer_in) = 0%nat.
Proof.
  split.
  - intros T.
    destruct buffer_in as [|b rest]; [now left|].
    destruct (Nat.eq_dec (bound id (length (b :: rest))) 0) as [E|N]; [now right|].
    exfalso. rewrite pack_reaches_call in T by (congruence || assumption).
    cbv zeta in T.
    destruct (pack_ptr id (b :: rest) _) as [[[|] written] zlen]; discriminate T.
  - intros [-> | E]; [reflexivity|].
    unfold pack. rewrite E. destruct buffer_in; reflexivity.
Qed.

(** X2: when the input is not empty and its bound is not 0, [pack] returns
    what the pointer-level pack returned; the output container is then
    empty if that is false, and has exactly the reported [zlen] bytes if
    it is true. *)
Theorem pack_false_empty_true_exact_size
    (bound : unsigned -> nat -> nat)
    (pack_ptr : unsigned -> bytes -> bytes -> bool * bytes * nat)
    (buffer_out buffer_in : bytes) (id : unsigned) :
  buffer_in <> [] -> bound id (length buffer_in) <> 0%nat ->
  exists result written zlen,
    pack_ptr id buffer_in (resize (bound id (length buffer_in)) buffer_out)
      = (result, written, zlen) /\
    fst (pack bound pack_ptr buffer_out buffer_in id) = Returned result /\
    (result = false -> snd (pack bound pack_ptr buffer_out buffer_in id) = []) /\
    (result = true ->
     length (snd (pack bound pack_ptr buffer_out buffer_in id)) = zlen).
Proof.
  intros Hin Hb. rewrite pack_reaches_call by assumption. cbv zeta.
  destruct (pack_ptr id buffer_in _) as [[result written] zlen].
  exists result, written, zlen. split; [reflexivity|].
  destruct result; simpl; repeat split; try congruence.
  intros _. apply resize_length.
Qed.

Lemma pack_false_empty_true_exact_size_witness :
  exists result written zlen,
    pack_ptr_copy LZ4 payload3 (resize (bound_plus16 LZ4 (length payload3)) [])
      = (result, written, zlen) /\
    fst (pack bound_plus16 pack_ptr_copy [] payload3 LZ4) = Returned result /\
    (result = false -> snd (pack bound_plus16 pack_ptr_copy [] payload3 LZ4) = []) /\
    (result = true ->
     length (snd (pack bound_plus16 pack_ptr_copy [] payload3 LZ4)) = zlen).
Proof.
  apply (@pack_false_empty_true_exact_size bound_plus16 pack_ptr_copy [] payload3 LZ4).
  - discriminate.
  - discriminate.
Defined.

(** X3: when the pointer-level pack succeeds, stores [written] and reports
    its length, and that length is within the bound, [pack] returns true
    and the output container holds exactly [written], whatever it held
    before. *)
Theorem pack_success_contents
    (bound : unsigned -> nat -> nat)
    (pack_ptr : unsigned -> bytes -> bytes -> bool * bytes * nat)
    (buffer_out buffer_in written : bytes) (id : unsigned) :
  buffer_in <> [] -> bound id (length buffer_in) <> 0%nat ->
  pack_ptr id buffer_in (resize (bound id (length buffer_in)) buffer_out)
    = (true, written, length written) ->
  (length written <= bound id (length buffer_in))%nat ->
  pack bound pack_ptr buffer_out buffer_in id = (Returned true, written).
Proof.
  intros Hin Hb P Le. rewrite pack_reaches_call by assumption. cbv zeta.
  rewrite P. f_equal. apply resize_store. now rewrite resize_length.
Qed.

Lemma pack_success_contents_witness :
  pack bound_plus16 pack_ptr_copy payload100 payload3 MINIZ = (Returned true, payload3).
Proof.
  apply (@pack_success_contents bound_plus16 pack_ptr_copy payload100 payload3 payload3 MINIZ).
  - discriminate.
  - discriminate.
  - reflexivity.
  - vm_compute. lia.
Defined.

(** X4: [unpack] throws std::out_of_range exactly when the compressed
    container or the output container is empty. *)
Theorem unpack_throws_iff
    (unpack_ptr : unsigned -> bytes -> bytes -> bool * bytes * nat)
    (buffer_out buffer_in : bytes) (id : unsigned) :
  fst (unpack unpack_ptr buffer_out buffer_in id) = Thrown out_of_range
  <-> buffer_in = [] \/ buffer_out = [].
Proof.
  unfold unpack.
  destruct buffer_in as [|b rest], buffer_out as [|c out]; simpl.
  - split; auto.
  - split; auto.
  - split; auto.
  - destruct (unpack_ptr id (b :: rest) (c :: out)) as [[result written] zlen]. simpl.
    split; [discriminate | intros [H|H]; discriminate H].
Qed.

(** X5: [unpack] never resizes the output container: it has the size the
    caller gave it whether the call returns true, returns false or
    throws. *)
Theorem unpack_keeps_size
    (unpack_ptr : unsigned -> bytes -> bytes -> bool * bytes * nat)
    (buffer_out buffer_in : bytes) (id : unsigned) :
  length (snd (unpack unpack_ptr buffer_out buffer_in id)) = length buffer_out.
Proof.
  unfold unpack.
  destruct (at0 buffer_in), (at0 buffer_out); try reflexivity.
  destruct (unpack_ptr id buffer_in buffer_out) as [[result written] zlen]. simpl.
  apply store_length.
Qed.

(** ** The benchmark loop: what is measured and when *)

Section MeasuresMore.

Variable now : nat -> Z.
Variable duration_cast_ms : Z -> Z.
Variable z : bytes -> unsigned -> bytes.
Variable unz : bytes -> unsigned -> bytes.
Variables do_enc do_dec do_verify : bool.
Variable original : bytes.

#[local] Abbreviation run_from := (measures_from now duration_cast_ms z unz do_enc do_dec do_verify original).
#[local] Abbreviation recs_of := (records_from now duration_cast_ms z unz do_enc do_dec do_verify original).

Lemma measures_from_tick (encs : list unsigned) :
  forall st, tick (run_from st encs) = (reads do_enc do_dec * length encs + tick st)%nat.
Proof.
  unfold measures_from. induction encs as [|s rest IH]; intros st; simpl.
  - lia.
  - rewrite IH, measures_body_eq. simpl. lia.
Qed.

Lemma records_from_app (zin : bytes) (encs1 encs2 : list unsigned) :
  forall t,
    recs_of zin t (encs1 ++ encs2)
    = recs_of zin t encs1 ++ recs_of zin (reads do_enc do_dec * length encs1 + t) encs2.
Proof.
  induction encs1 as [|s rest IH]; intros t; simpl.
  - now rewrite Nat.mul_0_r.
  - rewrite IH. do 3 f_equal. lia.
Qed.

End MeasuresMore.

(** X6: [measures] never measures memory: memusage is 0 in every record.
    The ratio and the encode time stay 0 when the encode phase is disabled,
    and the decode time stays 0 when the decode phase is disabled. *)
Theorem measures_unmeasured_fields
    (now : nat -> Z) (duration_cast_ms : Z -> Z) (z unz : bytes -> unsigned -> bytes)
    (do_enc do_dec do_verify : bool) (original : bytes)
    (encs : list unsigned) (t0 : nat) (r : measure) :
  In r (measures now duration_cast_ms z unz do_enc do_dec do_verify original encs t0) ->
  memusage r = Dbl.of_Z 0 /\
  (do_enc = false -> ratio r = Dbl.of_Z 0 /\ enctime r = Dbl.of_Z 0) /\
  (do_dec = false -> dectime r = Dbl.of_Z 0).
Proof.
  intros H. rewrite measures_eq in H.
  apply records_from_In in H as (t' & s & -> & _).
  unfold record_of; simpl. split; [reflexivity|].
  split; intros ->; auto.
Qed.

Lemma measures_unmeasured_fields_witness :
  let r := nth 1 (measures steady_clock whole_ms z_half_lz4 unz_copy true false false
                    payload100 [LZ4; SHOCO] 0) measure_default in
  memusage r = Dbl.of_Z 0 /\
  (true = false -> ratio r = Dbl.of_Z 0 /\ enctime r = Dbl.of_Z 0) /\
  (false = false -> dectime r = Dbl.of_Z 0).
Proof.
  intros r.
  apply (@measures_unmeasured_fields steady_clock whole_ms z_half_lz4 unz_copy
           true false false payload100 [LZ4; SHOCO] 0%nat r).
  vm_compute. right. left. reflexivity.
Defined.

(** X7: benchmarking a concatenated candidate list gives the records of
    the first list followed by the records the second list gets when its
    run starts after the clock readings of the first. *)
Theorem measures_app
    (now : nat -> Z) (duration_cast_ms : Z -> Z) (z unz : bytes -> unsigned -> bytes)
    (do_enc do_dec do_verify : bool) (original : bytes)
    (encs1 encs2 : list unsigned) (t0 : nat) :
  measures now duration_cast_ms z unz do_enc do_dec do_verify original (encs1 ++ encs2) t0
  = measures now duration_cast_ms z unz do_enc do_dec do_verify original encs1 t0
    ++ measures now duration_cast_ms z unz do_enc do_dec do_verify original encs2
         (tick (measures_run now duration_cast_ms z unz do_enc do_dec do_verify
                  original encs1 t0)).
Proof.
  unfold measures_run. rewrite measures_from_tick. simpl.
  rewrite !measures_eq. apply records_from_app.
Qed.

(** X8: a run over n candidates reads the clock twice per enabled phase
    and candidate; the encode time of the i-th candidate is the cast
    difference of the two readings around its own encode call, and its
    decode time that of the next two readings. *)
Theorem measures_timing
    (now : nat -> Z) (duration_cast_ms : Z -> Z) (z unz : bytes -> unsigned -> bytes)
    (do_enc do_dec do_verify : bool) (original : bytes)
    (encs : list unsigned) (t0 i : nat) (s : unsigned) :
  nth_error encs i = Some s ->
  tick (measures_run now duration_cast_ms z unz do_enc do_dec do_verify original encs t0)
    = (((if do_enc then 2 else 0) + (if do_dec then 2 else 0)) * length encs + t0)%nat /\
  exists r,
    nth_error (measures now duration_cast_ms z unz do_enc do_dec do_verify original encs t0) i
      = Some r /\
    let t := (i * ((if do_enc then 2 else 0) + (if do_dec then 2 else 0)) + t0)%nat in
    let tdec := ((if do_enc then 2 else 0) + t)%nat in
    (do_enc = true ->
     enctime r = Dbl.of_Z (duration_cast_ms (now (S t) - now t)%Z)) /\
    (do_dec = true ->
     dectime r = Dbl.of_Z (duration_cast_ms (now (S tdec) - now tdec)%Z)).
Proof.
  intros E. split.
  - unfold measures_run. now rewrite measures_from_tick.
  - rewrite measures_eq, records_from_nth, E. simpl.
    eexists. split; [reflexivity|]. unfold record_of, reads; simpl.
    split; intros ->; reflexivity.
Qed.

Lemma measures_timing_witness :
  tick (measures_run brisk_clock whole_ms z_copy unz_copy true true true
          payload3 [LZ4; SHOCO] 5) = 13%nat /\
  exists r,
    nth_error (measures brisk_clock whole_ms z_copy unz_copy true true true
                 payload3 [LZ4; SHOCO] 5) 1 = Some r /\
    (true = true -> enctime r = Dbl.of_Z (whole_ms (brisk_clock 10 - brisk_clock 9))) /\
    (true = true -> dectime r = Dbl.of_Z (whole_ms (brisk_clock 12 - brisk_clock 11))).
Proof.
  apply (@measures_timing brisk_clock whole_ms z_copy unz_copy true true true
           payload3 [LZ4; SHOCO] 5%nat 1%nat SHOCO).
  reflexivity.
Defined.

(** X9: a run with the encode phase disabled never looks at the payload or
    at what the codecs return: its records are the same for any two
    payloads and any two codecs, and so is the choice of
    [find_fastest_decompressor]. *)
Theorem decode_only_run_ignores_payload
    (now : nat -> Z) (duration_cast_ms : Z -> Z)
    (z unz z' unz' : bytes -> unsigned -> bytes)
    (do_verify do_verify' : bool) (original original' : bytes)
    (encs : list unsigned) (t0 : nat) :
  measures now duration_cast_ms z unz false true do_verify original encs t0
  = measures now duration_cast_ms z' unz' false true do_verify' original' encs t0 /\
  find_fastest_decompressor now duration_cast_ms z unz original encs t0
  = find_fastest_decompressor now duration_cast_ms z' unz' original' encs t0.
Proof.
  assert (E : forall dv dv',
             measures now duration_cast_ms z unz false true dv original encs t0
             = measures now duration_cast_ms z' unz' false true dv' original' encs t0).
  { intros dv dv'. rewrite !measures_eq. generalize t0.
    induction encs as [|s rest IH]; intros t; simpl; [reflexivity|].
    rewrite IH. f_equal. unfold record_of. simpl. now rewrite !andb_false_r. }
  split; [apply E|].
  unfold find_fastest_decompressor. now rewrite (E false false).
Qed.

(** ** The selection loops: what they return *)

Lemma ratio_of_empty (zsize : nat) :
  ratio_of zsize 0 = if (zsize =? 0)%nat then Dbl.NaN else Dbl.NegInf.
Proof.
  destruct zsize as [|n]; reflexivity.
Qed.

(** X10: for an empty payload the ratio of a record is not a number when
    the encoder returns nothing, and minus infinity when it returns
    something; [find_smallest_compressor] then returns NONE whatever the
    candidates are. *)
Theorem find_smallest_compressor_empty_payload
    (now : nat -> Z) (duration_cast_ms : Z -> Z) (z unz : bytes -> unsigned -> bytes)
    (encs : list unsigned) (t0 : nat) :
  (forall r,
     In r (measures now duration_cast_ms z unz true false false [] encs t0) ->
     ratio r = if (length (z [] (q r)) =? 0)%nat then Dbl.NaN else Dbl.NegInf) /\
  find_smallest_compressor now duration_cast_ms z unz [] encs t0 = NONE.
Proof.
  assert (R : forall r,
             In r (measures now duration_cast_ms z unz true false false [] encs t0) ->
             ratio r = if (length (z [] (q r)) =? 0)%nat then Dbl.NaN else Dbl.NegInf).
  { intros r H. rewrite measures_eq in H.
    apply records_from_In in H as (t' & s & -> & _).
    unfold record_of; simpl. apply ratio_of_empty. }
  split; [exact R|].
  unfold find_smallest_compressor.
  change smallest_step with (select_step smallest_pred ratio).
  rewrite select_none; [reflexivity|].
  intros r I. unfold smallest_pred. rewrite (R r I).
  destruct (length (z [] (q r)) =? 0)%nat; simpl; now rewrite andb_false_r.
Qed.

Lemma leb_ltb_trans (x y w : Dbl.double) :
  Dbl.is_finite x -> Dbl.is_finite y -> Dbl.is_finite w ->
  Dbl.leb x y = true -> Dbl.ltb y w = true -> Dbl.ltb x w = true.
Proof.
  intros [a ->] [b ->] [c ->] H1 H2. apply ltb_fin. apply leb_fin in H1.
  apply ltb_fin in H2. eapply Qle_lt_trans; eassumption.
Qed.

Lemma leb_false_ltb (x y : Dbl.double) :
  Dbl.is_finite x -> Dbl.is_finite y -> Dbl.leb x y = false -> Dbl.ltb y x = true.
Proof.
  intros [a ->] [b ->] H. unfold Dbl.ltb, Dbl.Qltb. simpl in H. now rewrite H.
Qed.

Section Highest.

Variable key : measure -> Dbl.double.
Variable q0 : unsigned.
Variables b0 c : Q.
Hypothesis below_bar : b0 < c.

#[local] Abbreviation climb rs :=
  (fold_left (select_step (bar_test key (Dbl.Fin c)) key) rs (q0, Dbl.Fin b0)).

Lemma highest_fold (rs : list measure) :
  Forall (fun r => Dbl.is_finite (key r)) rs ->
  (climb rs = (q0, Dbl.Fin b0) /\
   forall r, In r rs -> pass r = true -> Dbl.geb (key r) (Dbl.Fin c) = false)
  \/
  (exists i r, first_highest key rs i r /\ climb rs = (q r, key r) /\
               Dbl.geb (key r) (Dbl.Fin c) = true).
Proof.
  assert (Fb : Dbl.is_finite (Dbl.Fin b0)) by (now exists b0).
  assert (Fc : Dbl.is_finite (Dbl.Fin c)) by (now exists c).
  assert (Lbc : Dbl.ltb (Dbl.Fin b0) (Dbl.Fin c) = true) by (now apply ltb_fin).
  induction rs as [|x rs IH] using rev_ind; intros F.
  - left. split; [reflexivity | intros r []].
  - apply Forall_app in F as [F Fx]. apply Forall_inv in Fx.
    assert (Fnth : forall j r, nth_error rs j = Some r -> Dbl.is_finite (key r)).
    { intros j r E. eapply (proj1 (Forall_forall _ _) F), nth_error_In, E. }
    rewrite fold_left_app. simpl.
    destruct (IH F) as [[E N] | (i & r & (Hi & Hp & Hle & Hlt) & E & B)];
      rewrite E; unfold select_step, bar_test, Dbl.gtb, Dbl.geb in *; cbn [fst snd].
    + assert (Nlt : forall j r', nth_error rs j = Some r' -> pass r' = true ->
                      Dbl.ltb (key r') (Dbl.Fin c) = true).
      { intros j r' Hj Pr'. apply leb_false_ltb; [exact Fc | eapply Fnth, Hj |].
        apply N; [eapply nth_error_In, Hj | exact Pr']. }
      destruct (pass x) eqn:P; cbn [andb]; [destruct (Dbl.leb (Dbl.Fin c) (key x)) eqn:G|].
      * rewrite (@ltb_leb_trans (Dbl.Fin b0) (Dbl.Fin c) (key x)) by assumption. cbn [andb].
        right. exists (length rs), x. split; [|split; [reflexivity | exact G]].
        split; [|split; [exact P|split]].
        -- now rewrite nth_error_app2, Nat.sub_diag.
        -- intros j r' Hj Pr'. apply nth_error_snoc in Hj as [[Lj Hj]|[_ ->]].
           ++ apply ltb_leb; [eapply Fnth, Hj | exact Fx |].
              apply (@ltb_leb_trans (key r') (Dbl.Fin c) (key x));
                [eapply Fnth, Hj | exact Fc | exact Fx | eapply Nlt; eassumption | exact G].
           ++ now apply leb_refl.
        -- intros j r' Lj Hj Pr'. apply nth_error_snoc in Hj as [[_ Hj]|[-> _]]; [|lia].
           apply (@ltb_leb_trans (key r') (Dbl.Fin c) (key x));
             [eapply Fnth, Hj | exact Fc | exact Fx | eapply Nlt; eassumption | exact G].
      * rewrite andb_false_r. left. split; [reflexivity|]. intros r I Pr.
        apply in_app_or in I as [I|[<-|[]]]; [now apply N | exact G].
      * left. split; [reflexivity|]. intros r I Pr.
        apply in_app_or in I as [I|[<-|[]]]; [now apply N | congruence].
    + assert (Fr : Dbl.is_finite (key r)) by (eapply Fnth, Hi).
      assert (Li : (i < length rs)%nat) by (apply nth_error_Some; congruence).
      destruct (pass x) eqn:P; cbn [andb]; [destruct (Dbl.ltb (key r) (key x)) eqn:L|].
      * assert (G : Dbl.leb (Dbl.Fin c) (key x) = true).
        { apply ltb_leb; [exact Fc | exact Fx |].
          apply (@leb_ltb_trans (Dbl.Fin c) (key r) (key x)); assumption. }
        rewrite G. cbn [andb].
        right. exists (length rs), x. split; [|split; [reflexivity | exact G]].
        split; [|split; [exact P|split]].
        -- now rewrite nth_error_app2, Nat.sub_diag.
        -- intros j r' Hj Pr'. apply nth_error_snoc in Hj as [[Lj Hj]|[_ ->]].
           ++ apply ltb_leb; [eapply Fnth, Hj | exact Fx |].
              apply (@leb_ltb_trans (key r') (key r) (key x));
                [eapply Fnth, Hj | exact Fr | exact Fx | eapply Hle; eassumption | exact L].
           ++ now apply leb_refl.
        -- intros j r' Lj Hj Pr'. apply nth_error_snoc in Hj as [[_ Hj]|[-> _]]; [|lia].
           apply (@leb_ltb_trans (key r') (key r) (key x));
             [eapply Fnth, Hj | exact Fr | exact Fx | eapply Hle; eassumption | exact L].
      * cbn [andb]. right. exists i, r. split; [|split; [reflexivity | exact B]].
        split; [|split; [exact Hp|split]].
        -- now rewrite nth_error_app1.
        -- intros j r' Hj Pr'. apply nth_error_snoc in Hj as [[Lj Hj]|[_ ->]].
           ++ eapply Hle; eassumption.
           ++ now apply ltb_false_leb.
        -- intros j r' Lj Hj Pr'. apply nth_error_snoc in Hj as [[_ Hj]|[-> _]]; [|lia].
           eapply Hlt; eassumption.
      * right. exists i, r. split; [|split; [reflexivity | exact B]].
        split; [|split; [exact Hp|split]].
        -- now rewrite nth_error_app1.
        -- intros j r' Hj Pr'. apply nth_error_snoc in Hj as [[Lj Hj]|[_ ->]].
           ++ eapply Hle; eassumption.
           ++ congruence.
        -- intros j r' Lj Hj Pr'. apply nth_error_snoc in Hj as [[_ Hj]|[-> _]]; [|lia].
           eapply Hlt; eassumption.
Qed.

End Highest.

Lemma measures_ratio_finite
    (now : nat -> Z) (duration_cast_ms : Z -> Z) (z unz : bytes -> unsigned -> bytes)
    (do_enc do_dec do_verify : bool) (original : bytes) (encs : list unsigned) (t0 : nat) :
  original <> [] ->
  Forall (fun r => Dbl.is_finite (ratio r))
         (measures now duration_cast_ms z unz do_enc do_dec do_verify original encs t0).
Proof.
  intros Hne. apply Forall_forall. intros r H. rewrite measures_eq in H.
  apply records_from_In in H as (t' & s & -> & _). unfold record_of; simpl.
  destruct do_enc.
  - rewrite ratio_of_nonempty; [eexists; reflexivity|].
    destruct original; [congruence | simpl; lia].
  - eexists; reflexivity.
Qed.

(** X11: for a non-empty payload, when some candidate reaches the bar of
    100 - NO_COMPRESSION_TRESHOLD / 100.0, [find_smallest_compressor]
    returns the identifier of the record with the highest ratio, the first
    such record in the supplied order when several tie, and that ratio
    reaches the bar; when no candidate reaches the bar it returns NONE. *)
Theorem find_smallest_compressor_first_highest
    (now : nat -> Z) (duration_cast_ms : Z -> Z) (z unz : bytes -> unsigned -> bytes)
    (original : bytes) (encs : list unsigned) (t0 : nat) :
  original <> [] ->
  ((exists r,
      In r (measures now duration_cast_ms z unz true false false original encs t0) /\
      Dbl.geb (ratio r) smallest_bar = true) ->
   exists i r,
     first_highest ratio
       (measures now duration_cast_ms z unz true false false original encs t0) i r /\
     Dbl.geb (ratio r) smallest_bar = true /\
     find_smallest_compressor now duration_cast_ms z unz original encs t0 = q r) /\
  ((forall r,
      In r (measures now duration_cast_ms z unz true false false original encs t0) ->
      Dbl.geb (ratio r) smallest_bar = false) ->
   find_smallest_compressor now duration_cast_ms z unz original encs t0 = NONE).
Proof.
  intros Hne. unfold find_smallest_compressor.
  assert (Hbar : smallest_bar = Dbl.Fin (inject_Z 100 + - (inject_Z 5 / inject_Z 100)))
    by reflexivity.
  change smallest_step
    with (select_step (bar_test ratio smallest_bar) ratio).
  rewrite Hbar. unfold Dbl.of_Z.
  destruct (@highest_fold ratio NONE (inject_Z 0) (inject_Z 100 + - (inject_Z 5 / inject_Z 100))
              eq_refl
              (measures now duration_cast_ms z unz true false false original encs t0)
              (measures_ratio_finite _ _ _ _ _ _ _ _ _ Hne))
    as [[E N] | (i & r & F & E & B)].
  - split.
    + intros (r & I & G).
      rewrite (N r I) in G; [discriminate|].
      now rewrite (measures_pass_value _ _ _ _ _ _ _ _ _ _ _ I).
    + intros _. now rewrite E.
  - split.
    + intros _. exists i, r. split; [exact F|]. split; [exact B|]. now rewrite E.
    + intros N. destruct F as (Hi & _).
      rewrite (N r (nth_error_In _ _ Hi)) in B. discriminate.
Qed.

Lemma find_smallest_compressor_first_highest_witness :
  exists i r,
    first_highest ratio
      (measures steady_clock whole_ms z_tiny unz_copy true false false
         payload4000 [SHOCO; LZLIB; LZ4] 0) i r /\
    Dbl.geb (ratio r) smallest_bar = true /\
    find_smallest_compressor steady_clock whole_ms z_tiny unz_copy
      payload4000 [SHOCO; LZLIB; LZ4] 0 = q r.
Proof.
  apply (proj1 (@find_smallest_compressor_first_highest steady_clock whole_ms z_tiny unz_copy
                  payload4000 [SHOCO; LZLIB; LZ4] 0%nat ltac:(discriminate))).
  exists (nth 1 (measures steady_clock whole_ms z_tiny unz_copy true false false
                   payload4000 [SHOCO; LZLIB; LZ4] 0) measure_default).
  split; [right; left; reflexivity | vm_compute; reflexivity].
Defined.

(** X12: when some record of the decode run has a decode time below the
    initial bound of 9999999 ms, [find_fastest_decompressor] returns the
    identifier of the record with the lowest decode time, the first such
    record in the supplied order when several tie; otherwise it returns
    NONE. *)
Theorem find_fastest_decompressor_first_lowest
    (now : nat -> Z) (duration_cast_ms : Z -> Z) (z unz : bytes -> unsigned -> bytes)
    (original : bytes) (encs : list unsigned) (t0 : nat) :
  ((exists r,
      In r (measures now duration_cast_ms z unz false true false original encs t0) /\
      Dbl.ltb (dectime r) (Dbl.of_Z 9999999) = true) ->
   exists i r,
     first_lowest dectime
       (measures now duration_cast_ms z unz false true false original encs t0) i r /\
     find_fastest_decompressor now duration_cast_ms z unz original encs t0 = q r) /\
  ((forall r,
      In r (measures now duration_cast_ms z unz false true false original encs t0) ->
      Dbl.ltb (dectime r) (Dbl.of_Z 9999999) = false) ->
   find_fastest_decompressor now duration_cast_ms z unz original encs t0 = NONE).
Proof.
  unfold find_fastest_decompressor, Dbl.of_Z.
  change fastest_dec_step with (select_step (lower_test dectime) dectime).
  destruct (@lowest_fold dectime NONE (inject_Z 9999999)
              (measures now duration_cast_ms z unz false true false original encs t0))
    as [[E N] | (i & r & F & E & B)].
  - eapply Forall_impl; [|apply measures_times_finite]. now intros r [_ H].
  - split.
    + intros (r & I & L). rewrite (N r I) in L; [discriminate|].
      now rewrite (measures_pass_value _ _ _ _ _ _ _ _ _ _ _ I).
    + intros _. now rewrite E.
  - split.
    + intros _. exists i, r. split; [exact F|]. now rewrite E.
    + intros N. destruct F as (Hi & _).
      rewrite (N r (nth_error_In _ _ Hi)) in B. discriminate.
Qed.

Lemma find_fastest_decompressor_first_lowest_witness :
  exists i r,
    first_lowest dectime
      (measures brisk_clock whole_ms z_copy unz_copy false true false
         payload3 [MINIZ; LZ4] 0) i r /\
    find_fastest_decompressor brisk_clock whole_ms z_copy unz_copy payload3 [MINIZ; LZ4] 0
      = q r.
Proof.
  apply (proj1 (@find_fastest_decompressor_first_lowest brisk_clock whole_ms z_copy unz_copy
                  payload3 [MINIZ; LZ4] 0%nat)).
  eexists. split; [left; reflexivity | reflexivity].
Defined.

Lemma select_fst_in (test : Dbl.double -> measure -> bool) (key : measure -> Dbl.double)
    (rs : list measure) :
  forall st,
    fst (fold_left (select_step test key) rs st) = fst st \/
    In (fst (fold_left (select_step test key) rs st)) (map q rs).
Proof.
  induction rs as [|r rs IH]; intros st; simpl; [now left|].
  destruct (IH (select_step test key st r)) as [E|I]; [|now right; right].
  rewrite E. unfold select_step. destruct (test (snd st) r); simpl; auto.
Qed.

Lemma measures_q
    (now : nat -> Z) (duration_cast_ms : Z -> Z) (z unz : bytes -> unsigned -> bytes)
    (do_enc do_dec do_verify : bool) (original : bytes) (encs : list unsigned) (t0 : nat) :
  map q (measures now duration_cast_ms z unz do_enc do_dec do_verify original encs t0) = encs.
Proof.
  rewrite measures_eq. apply records_from_q.
Qed.

(** X13: each of the three selection functions returns NONE or one of the
    candidates it was given. *)
Theorem find_returns_none_or_candidate
    (now : nat -> Z) (duration_cast_ms : Z -> Z) (z unz : bytes -> unsigned -> bytes)
    (original : bytes) (encs : list unsigned) (t0 : nat) :
  (find_smallest_compressor now duration_cast_ms z unz original encs t0 = NONE \/
   In (find_smallest_compressor now duration_cast_ms z unz original encs t0) encs) /\
  (find_fastest_compressor now duration_cast_ms z unz original encs t0 = NONE \/
   In (find_fastest_compressor now duration_cast_ms z unz original encs t0) encs) /\
  (find_fastest_decompressor now duration_cast_ms z unz original encs t0 = NONE \/
   In (find_fastest_decompressor now duration_cast_ms z unz original encs t0) encs).
Proof.
  unfold find_smallest_compressor, find_fastest_compressor, find_fastest_decompressor.
  change smallest_step with (select_step smallest_pred ratio).
  change fastest_enc_step with (select_step fastest_enc_pred enctime).
  change fastest_dec_step with (select_step fastest_dec_pred dectime).
  repeat split.
  - destruct (select_fst_in smallest_pred ratio
                (measures now duration_cast_ms z unz true false false original encs t0)
                (NONE, Dbl.of_Z 0)) as [E|I]; [now left|right].
    now rewrite measures_q in I.
  - destruct (select_fst_in fastest_enc_pred enctime
                (measures now duration_cast_ms z unz true false false original encs t0)
                (NONE, Dbl.of_Z 9999999)) as [E|I]; [now left|right].
    now rewrite measures_q in I.
  - destruct (select_fst_in fastest_dec_pred dectime
                (measures now duration_cast_ms z unz false true false original encs t0)
                (NONE, Dbl.of_Z 9999999)) as [E|I]; [now left|right].
    now rewrite measures_q in I.
Qed.

Lemma smallest_fold_agree (rs rs' : list measure) :
  Forall2 (fun r r' => q r = q r' /\ ratio r = ratio r' /\ pass r = pass r') rs rs' ->
  forall st, fold_left smallest_step rs st = fold_left smallest_step rs' st.
Proof.
  induction 1 as [|r r' rs rs' (Eq & Er & Ep) _ IH]; intros st; simpl; [reflexivity|].
  rewrite IH. f_equal. unfold smallest_step, smallest_pred. now rewrite Eq, Er, Ep.
Qed.

(** X14: the choice of [find_smallest_compressor] does not depend on the
    clock, on the decoder or on when the run starts: two runs on the same
    payload, encoder and candidates return the same identifier. *)
Theorem find_smallest_compressor_ignores_clock
    (now now' : nat -> Z) (duration_cast_ms duration_cast_ms' : Z -> Z)
    (z unz unz' : bytes -> unsigned -> bytes)
    (original : bytes) (encs : list unsigned) (t0 t0' : nat) :
  find_smallest_compressor now duration_cast_ms z unz original encs t0
  = find_smallest_compressor now' duration_cast_ms' z unz' original encs t0'.
Proof.
  unfold find_smallest_compressor. f_equal. apply smallest_fold_agree.
  rewrite !measures_eq. generalize t0, t0'.
  induction encs as [|s rest IH]; intros t t'; simpl; constructor.
  - unfold record_of; simpl. auto.
  - apply IH.
Qed.
